(** * Storage core of url-shortener-ztm (src/database/sqlite.rs)

    A shallow embedding of [SqliteUrlDatabase]: the three tables the SQL
    statements of sqlite.rs touch ([urls], [aliases], [bloom_snapshots]),
    the [all_short_codes] view, the statements as functions on an explicit
    database state, the [map_err] closures that translate sqlx errors into
    [DatabaseError], and [sha256_bytes] (SHA-256 written out over 32-bit
    words held in [Z]). *)

From Stdlib Require Import ZArith List String Ascii Bool Lia.
From Stdlib Require Import Strings.Byte.
Import ListNotations.
Open Scope Z_scope.

(* ------------------------------------------------------------------ *)
(** ** [sha256_bytes] *)

Module Sha256.

Definition mask32 : Z := Z.ones 32.

Definition wrap (x : Z) : Z := Z.land x mask32.

Definition add32 (x y : Z) : Z := wrap (x + y).

Definition rotr (x : Z) (n : Z) : Z :=
  Z.lor (Z.shiftr x n) (wrap (Z.shiftl x (32 - n))).

Definition ch (x y z : Z) : Z := Z.lxor (Z.land x y) (Z.land (Z.lxor x mask32) z).
Definition maj (x y z : Z) : Z := Z.lxor (Z.lxor (Z.land x y) (Z.land x z)) (Z.land y z).
Definition bsig0 (x : Z) : Z := Z.lxor (Z.lxor (rotr x 2) (rotr x 13)) (rotr x 22).
Definition bsig1 (x : Z) : Z := Z.lxor (Z.lxor (rotr x 6) (rotr x 11)) (rotr x 25).
Definition ssig0 (x : Z) : Z := Z.lxor (Z.lxor (rotr x 7) (rotr x 18)) (Z.shiftr x 3).
Definition ssig1 (x : Z) : Z := Z.lxor (Z.lxor (rotr x 17) (rotr x 19)) (Z.shiftr x 10).

(** Round constants (FIPS 180-4, 4.2.2), written in decimal. *)
Definition K : list Z :=
  [1116352408; 1899447441; 3049323471; 3921009573;
   961987163; 1508970993; 2453635748; 2870763221;
   3624381080; 310598401; 607225278; 1426881987;
   1925078388; 2162078206; 2614888103; 3248222580;
   3835390401; 4022224774; 264347078; 604807628;
   770255983; 1249150122; 1555081692; 1996064986;
   2554220882; 2821834349; 2952996808; 3210313671;
   3336571891; 3584528711; 113926993; 338241895;
   666307205; 773529912; 1294757372; 1396182291;
   1695183700; 1986661051; 2177026350; 2456956037;
   2730485921; 2820302411; 3259730800; 3345764771;
   3516065817; 3600352804; 4094571909; 275423344;
   430227734; 506948616; 659060556; 883997877;
   958139571; 1322822218; 1537002063; 1747873779;
   1955562222; 2024104815; 2227730452; 2361852424;
   2428436474; 2756734187; 3204031479; 3329325298].

(** The eight working variables / chaining values. *)
Record state := mk_state { a : Z; b : Z; c : Z; d : Z; e : Z; f : Z; g : Z; h : Z }.

Definition H0 : state :=
  mk_state 0x6a09e667 0xbb67ae85 0x3c6ef372 0xa54ff53a
           0x510e527f 0x9b05688c 0x1f83d9ab 0x5be0cd19.

Definition byte_to_Z (x : byte) : Z := Z.of_N (Byte.to_N x).

Definition Z_to_byte (x : Z) : byte :=
  match Byte.of_N (Z.to_N (Z.land x 255)) with Some y => y | None => x00 end.

(** Big-endian word of four bytes. *)
Definition be_word (b0 b1 b2 b3 : byte) : Z :=
  Z.lor (Z.shiftl (byte_to_Z b0) 24)
    (Z.lor (Z.shiftl (byte_to_Z b1) 16)
       (Z.lor (Z.shiftl (byte_to_Z b2) 8) (byte_to_Z b3))).

Fixpoint words_of_block (bs : list byte) : list Z :=
  match bs with
  | b0 :: b1 :: b2 :: b3 :: rest => be_word b0 b1 b2 b3 :: words_of_block rest
  | _ => []
  end.

(** Message schedule: extend the 16 block words to 64. *)
Fixpoint schedule (fuel : nat) (w : list Z) : list Z :=
  match fuel with
  | O => w
  | S fuel' =>
      let t := List.length w in
      let wt := add32 (add32 (ssig1 (nth (t - 2)%nat w 0)) (nth (t - 7)%nat w 0))
                      (add32 (ssig0 (nth (t - 15)%nat w 0)) (nth (t - 16)%nat w 0)) in
      schedule fuel' (w ++ [wt])
  end.

Definition round (s : state) (kw : Z * Z) : state :=
  let '(k, w) := kw in
  let t1 := add32 (add32 (add32 (h s) (bsig1 (e s))) (add32 (ch (e s) (f s) (g s)) k)) w in
  let t2 := add32 (bsig0 (a s)) (maj (a s) (b s) (c s)) in
  mk_state (add32 t1 t2) (a s) (b s) (c s) (add32 (d s) t1) (e s) (f s) (g s).

Definition compress (s : state) (block : list byte) : state :=
  let w := schedule 48 (words_of_block block) in
  let s' := fold_left round (combine K w) s in
  mk_state (add32 (a s) (a s')) (add32 (b s) (b s')) (add32 (c s) (c s'))
           (add32 (d s) (d s')) (add32 (e s) (e s')) (add32 (f s) (f s'))
           (add32 (g s) (g s')) (add32 (h s) (h s')).

(** Big-endian bytes of a [width]-byte number. *)
Fixpoint be_bytes (width : nat) (x : Z) : list byte :=
  match width with
  | O => []
  | S w' => be_bytes w' (Z.shiftr x 8) ++ [Z_to_byte x]
  end.

(** Padding: 0x80, zeros up to 56 mod 64, then the bit length on 8 bytes. *)
Definition pad (msg : list byte) : list byte :=
  let len := List.length msg in
  let zeros := ((55 + 64 - len mod 64) mod 64)%nat in
  msg ++ [x80] ++ repeat x00 zeros ++ be_bytes 8 (8 * Z.of_nat len).

Fixpoint process (fuel : nat) (s : state) (bs : list byte) : state :=
  match fuel with
  | O => s
  | S fuel' =>
      match bs with
      | [] => s
      | _ => process fuel' (compress s (firstn 64 bs)) (skipn 64 bs)
      end
  end.

Definition digest_bytes (s : state) : list byte :=
  be_bytes 4 (a s) ++ be_bytes 4 (b s) ++ be_bytes 4 (c s) ++ be_bytes 4 (d s) ++
  be_bytes 4 (e s) ++ be_bytes 4 (f s) ++ be_bytes 4 (g s) ++ be_bytes 4 (h s).

Definition sha256 (msg : list byte) : list byte :=
  let p := pad msg in
  digest_bytes (process (List.length p) H0 p).

End Sha256.

(** [s.as_bytes()]: a string is the sequence of its bytes. *)
Definition as_bytes (s : string) : list byte :=
  map Ascii.byte_of_ascii (list_ascii_of_string s).

(** [fn sha256_bytes(s: &str) -> [u8; 32]] *)
Definition sha256_bytes (s : string) : list byte := Sha256.sha256 (as_bytes s).

Example sha256_abc_vector :
  map Byte.to_N (sha256_bytes "abc"%string) =
  [0xba; 0x78; 0x16; 0xbf; 0x8f; 0x01; 0xcf; 0xea; 0x41; 0x41; 0x40; 0xde; 0x5d; 0xae; 0x22; 0x23;
   0xb0; 0x03; 0x61; 0xa3; 0x96; 0x17; 0x7a; 0x9c; 0xb4; 0x10; 0xff; 0x61; 0xf2; 0x00; 0x15; 0xad]%N.
Proof. vm_compute. reflexivity. Qed.

Example sha256_two_block_vector :
  map Byte.to_N (sha256_bytes "abcdbcdecdefdefgefghfghighijhijkijkljklmklmnlmnomnopnopq"%string) =
  [0x24; 0x8d; 0x6a; 0x61; 0xd2; 0x06; 0x38; 0xb8; 0xe5; 0xc0; 0x26; 0x93; 0x0c; 0x3e; 0x60; 0x39;
   0xa3; 0x3c; 0xe4; 0x59; 0x64; 0xff; 0x21; 0x67; 0xf6; 0xec; 0xed; 0xd4; 0x19; 0xdb; 0x06; 0xc1]%N.
Proof. vm_compute. reflexivity. Qed.

(* ------------------------------------------------------------------ *)
(** ** Results and errors *)

(** Rust's [Result<T, E>]. *)
Inductive result (T E : Type) : Type :=
| Ok : T -> result T E
| Err : E -> result T E.
Arguments Ok {T E} _.
Arguments Err {T E} _.

(** [DatabaseError] (database/mod.rs). *)
Inductive DatabaseError :=
| NotFound
| Duplicate
| ConnectionError (msg : string)
| QueryError (msg : string)
| MigrationError (msg : string).

(** The failures a statement can report through [sqlx::Error]: SQLite's
    constraint and engine errors, and sqlx's [RowNotFound] for [fetch_one]. *)
Inductive sqlx_error :=
| UniqueViolation (table column : string)
| NotNullViolation (table column : string)
| ForeignKeyViolation
| DatabaseBusy
| DiskIoError
| PoolTimedOut
| RowNotFound.

(** [e.to_string()]: sqlx prefixes database errors with this text. *)
Definition db_prefix : string := "error returned from database: ".

Definition sqlx_error_to_string (e : sqlx_error) : string :=
  match e with
  | UniqueViolation t col => db_prefix ++ "UNIQUE constraint failed: " ++ t ++ "." ++ col
  | NotNullViolation t col => db_prefix ++ "NOT NULL constraint failed: " ++ t ++ "." ++ col
  | ForeignKeyViolation => db_prefix ++ "FOREIGN KEY constraint failed"
  | DatabaseBusy => db_prefix ++ "database is locked"
  | DiskIoError => db_prefix ++ "disk I/O error"
  | PoolTimedOut => "pool timed out while waiting for an open connection"
  | RowNotFound => "no rows returned by a query that expected to return at least one row"
  end%string.

(** Rust's [str::contains] on a string pattern. *)
Fixpoint contains (s pat : string) : bool :=
  String.prefix pat s ||
  match s with
  | EmptyString => false
  | String _ s' => contains s' pat
  end.

(** The [map_err] closure of [insert_url]'s conditional insert. *)
Definition insert_url_err (e : sqlx_error) : DatabaseError :=
  if contains (sqlx_error_to_string e) "UNIQUE constraint failed: urls.code"
  then Duplicate
  else QueryError (sqlx_error_to_string e).

(** The [map_err] closure of [insert_alias]. *)
Definition insert_alias_err (e : sqlx_error) : DatabaseError :=
  if contains (sqlx_error_to_string e) "UNIQUE constraint failed: aliases.alias"
  then Duplicate
  else QueryError (sqlx_error_to_string e).

(** [|e| DatabaseError::QueryError(e.to_string())] *)
Definition query_err (e : sqlx_error) : DatabaseError :=
  QueryError (sqlx_error_to_string e).

(* ------------------------------------------------------------------ *)
(** ** Data model *)

(** [models::Urls] *)
Record Urls := mk_Urls { urls_id : Z; urls_code : string }.

(** [models::UpsertResult] *)
Record UpsertResult := mk_UpsertResult { upsert_id : Z; created : bool }.

(** Modelled from the spec: the schema created by ./migrations, which is
    not part of the sources. Canonical table [urls(id, code UNIQUE, url,
    url_hash UNIQUE)], alias table [aliases(alias UNIQUE, target_id
    REFERENCES urls(id))], bloom table [bloom_snapshots(name UNIQUE, data,
    updated_at)]. Rows are kept in rowid (insertion) order. *)
Record url_row := mk_url_row {
  row_id : Z; row_code : string; row_url : string; row_hash : list byte }.

Record alias_row := mk_alias_row { alias : string; target_id : Z }.

Record bloom_row := mk_bloom_row {
  bloom_name : string; bloom_data : list byte; updated_at : Z }.

(** The database a pool connects to; [clock] is SQLite's CURRENT_TIMESTAMP. *)
Record db := mk_db {
  urls : list url_row;
  aliases : list alias_row;
  bloom_snapshots : list bloom_row;
  clock : Z }.

(** The freshly migrated database. *)
Definition empty_db : db := mk_db [] [] [] 0.

Definition bytes_eqb (x y : list byte) : bool :=
  if list_eq_dec Byte.byte_eq_dec x y then true else false.

Definition set_urls (d : db) (u : list url_row) : db :=
  mk_db u (aliases d) (bloom_snapshots d) (clock d).
Definition set_aliases (d : db) (al : list alias_row) : db :=
  mk_db (urls d) al (bloom_snapshots d) (clock d).
Definition set_blooms (d : db) (bl : list bloom_row) : db :=
  mk_db (urls d) (aliases d) bl (clock d).

(* ------------------------------------------------------------------ *)
(** ** Statements of sqlite.rs on the state *)

(** The rowid SQLite gives a new [urls] row ([id INTEGER PRIMARY KEY]):
    one more than the largest id in the table, 1 for an empty table. *)
Definition next_id (d : db) : Z :=
  1 + fold_left (fun m r => Z.max m (row_id r)) (urls d) 0.

Definition hash_in (hash : list byte) (d : db) : bool :=
  existsb (fun r => bytes_eqb (row_hash r) hash) (urls d).

Definition code_in (code : string) (d : db) : bool :=
  existsb (fun r => String.eqb (row_code r) code) (urls d).

(** [INSERT INTO urls(code, url, url_hash) VALUES (?1, ?2, ?3)
     ON CONFLICT(url_hash) DO NOTHING RETURNING id]. SQLite checks the
    conflict target first: a row with the same [url_hash] makes the insert
    a no-op returning no row, even when [code] is taken as well; otherwise a
    taken [code] fails the UNIQUE constraint on [urls.code]. *)
Definition insert_urls_stmt (d : db) (code url : string) (hash : list byte)
  : result (option Z * db) sqlx_error :=
  if hash_in hash d then Ok (None, d)
  else if code_in code d then Err (UniqueViolation "urls" "code")
  else
    let id := next_id d in
    Ok (Some id, set_urls d (urls d ++ [mk_url_row id code url hash])).

(** [SELECT id, code FROM urls WHERE url_hash = ?1 LIMIT 1] *)
Definition select_by_hash (d : db) (hash : list byte) : option Urls :=
  match find (fun r => bytes_eqb (row_hash r) hash) (urls d) with
  | Some r => Some (mk_Urls (row_id r) (row_code r))
  | None => None
  end.

(** [get_id_by_url] *)
Definition get_id_by_url (d : db) (url : string) : result Urls DatabaseError :=
  match select_by_hash d (sha256_bytes url) with
  | Some record => Ok record
  | None => Err NotFound
  end.

(** [insert_url]: conditional insert, then the fallback read ([fetch_one])
    when the insert returned no row. *)
Definition insert_url (d : db) (code url : string)
  : result (UpsertResult * Urls) DatabaseError * db :=
  let hash := sha256_bytes url in
  match insert_urls_stmt d code url hash with
  | Err e => (Err (insert_url_err e), d)
  | Ok (Some id, d1) =>
      (Ok (mk_UpsertResult id true, mk_Urls id code), d1)
  | Ok (None, d1) =>
      match select_by_hash d1 hash with
      | None => (Err (query_err RowNotFound), d1)
      | Some existing_urls =>
          (Ok (mk_UpsertResult (urls_id existing_urls) false, existing_urls), d1)
      end
  end.

(** Modelled from the spec: the view [all_short_codes] of ./migrations, the
    union of the canonical codes (with their url) and the alias codes joined
    through [target_id] to the canonical url, canonical rows first. *)
Definition all_short_codes (d : db) : list (string * string) :=
  map (fun r => (row_code r, row_url r)) (urls d) ++
  flat_map (fun al => map (fun r => (alias al, row_url r))
                          (filter (fun r => Z.eqb (row_id r) (target_id al)) (urls d)))
           (aliases d).

(** [get_url]: [SELECT url FROM all_short_codes u WHERE u.code = ? LIMIT 1] *)
Definition get_url (d : db) (id : string) : result string DatabaseError :=
  match find (fun p => String.eqb (fst p) id) (all_short_codes d) with
  | Some record => Ok (snd record)
  | None => Err NotFound
  end.

(** [x as i64] for a [u64] value [x]: two's-complement reinterpretation. *)
Definition u64_as_i64 (x : Z) : Z :=
  if x <? 2 ^ 63 then x else x - 2 ^ 64.

(** SQLite's [OFFSET o]: skip [o] rows; a negative offset counts as 0. *)
Fixpoint offset_rows {A} (o : Z) (rows : list A) : list A :=
  match rows with
  | [] => []
  | _ :: rows' => if o <=? 0 then rows else offset_rows (o - 1) rows'
  end.

(** SQLite's [LIMIT l] for [l >= 0]: keep the first [l] rows. *)
Fixpoint limit_rows {A} (l : Z) (rows : list A) : list A :=
  match rows with
  | [] => []
  | x :: rows' => if l <=? 0 then [] else x :: limit_rows (l - 1) rows'
  end.

(** [LIMIT l OFFSET o]: a negative limit means no limit. *)
Definition limit_offset {A} (l o : Z) (rows : list A) : list A :=
  let rest := offset_rows o rows in
  if l <? 0 then rest else limit_rows l rest.

(** [list_short_codes]: [SELECT code FROM all_short_codes LIMIT ? OFFSET ?]
    bound to [limit as i64] and [offset as i64]. *)
Definition list_short_codes (d : db) (offset limit : Z)
  : result (list string) DatabaseError :=
  Ok (limit_offset (u64_as_i64 limit) (u64_as_i64 offset) (map fst (all_short_codes d))).

(** [INSERT INTO aliases (alias, target_id) VALUES (?, ?)] on a pool opened
    with [foreign_keys(true)]: the UNIQUE constraint on [aliases.alias] is
    checked while the row is written, the foreign key at statement end. *)
Definition insert_aliases_stmt (d : db) (alias_code : string) (code_id : Z)
  : result db sqlx_error :=
  if existsb (fun al => String.eqb (alias al) alias_code) (aliases d)
  then Err (UniqueViolation "aliases" "alias")
  else if negb (existsb (fun r => Z.eqb (row_id r) code_id) (urls d))
  then Err ForeignKeyViolation
  else Ok (set_aliases d (aliases d ++ [mk_alias_row alias_code code_id])).

(** [insert_alias] *)
Definition insert_alias (d : db) (alias_code : string) (code_id : Z)
  : result unit DatabaseError * db :=
  match insert_aliases_stmt d alias_code code_id with
  | Err e => (Err (insert_alias_err e), d)
  | Ok d1 => (Ok tt, d1)
  end.

(** [load_bloom_snapshot]: [SELECT data FROM bloom_snapshots WHERE name = ?
    LIMIT 1] with [fetch_optional]. *)
Definition load_bloom_snapshot (d : db) (name : string)
  : result (option (list byte)) DatabaseError :=
  Ok (option_map bloom_data
        (find (fun r => String.eqb (bloom_name r) name) (bloom_snapshots d))).

(** [DO UPDATE SET data = excluded.data, updated_at = CURRENT_TIMESTAMP]
    on the row named [name]. *)
Definition bloom_upd (name : string) (data : list byte) (now : Z) (r : bloom_row) : bloom_row :=
  if String.eqb (bloom_name r) name then mk_bloom_row name data now else r.

(** [save_bloom_snapshot]: [INSERT ... ON CONFLICT(name) DO UPDATE SET
    data = excluded.data, updated_at = CURRENT_TIMESTAMP]. *)
Definition save_bloom_snapshot (d : db) (name : string) (data : list byte)
  : result unit DatabaseError * db :=
  let rows := bloom_snapshots d in
  if existsb (fun r => String.eqb (bloom_name r) name) rows
  then (Ok tt, set_blooms d
          (map (bloom_upd name data (clock d)) rows))
  else (Ok tt, set_blooms d (rows ++ [mk_bloom_row name data (clock d)])).

(* ------------------------------------------------------------------ *)
(** ** Runs of write operations *)

(** The writes a client can issue; [Tick] is the passing of time. *)
Inductive op :=
| OpInsertUrl (code url : string)
| OpInsertAlias (alias_code : string) (code_id : Z)
| OpSaveBloom (name : string) (data : list byte)
| Tick.

Definition step (d : db) (o : op) : db :=
  match o with
  | OpInsertUrl code url => snd (insert_url d code url)
  | OpInsertAlias a id => snd (insert_alias d a id)
  | OpSaveBloom n data => snd (save_bloom_snapshot d n data)
  | Tick => mk_db (urls d) (aliases d) (bloom_snapshots d) (clock d + 1)
  end.

Definition run (ops : list op) (d : db) : db := fold_left step ops d.

(** The end-to-end example of the spec. *)
Definition example_db : db :=
  run [OpInsertUrl "aaa111" "https://example.com";
       OpInsertUrl "bbb222" "https://example.com";
       OpInsertAlias "ccc333" 1]%string empty_db.

Example example_end_to_end :
  (fst (insert_url (run [OpInsertUrl "aaa111" "https://example.com"] empty_db)
         "bbb222" "https://example.com") =
    Ok (mk_UpsertResult 1 false, mk_Urls 1 "aaa111")
  /\ get_url example_db "ccc333" = Ok "https://example.com"
  /\ get_url example_db "bbb222" = Err NotFound)%string.
Proof. vm_compute. repeat split. Qed.

(* ================================================================== *)
(** * Properties *)

(* ------------------------------------------------------------------ *)
(** ** Helper lemmas *)

Lemma be_bytes_length (w : nat) (x : Z) : List.length (Sha256.be_bytes w x) = w.
Proof.
  revert x; induction w as [|w IH]; intros x; [reflexivity|].
  simpl. rewrite length_app, IH. simpl. lia.
Qed.

Lemma bytes_eqb_refl (x : list byte) : bytes_eqb x x = true.
Proof. unfold bytes_eqb. destruct (list_eq_dec Byte.byte_eq_dec x x); congruence. Qed.

Lemma existsb_false_filter {A} (p : A -> bool) (l : list A) :
  existsb p l = false -> filter p l = [].
Proof.
  induction l as [|x l IH]; simpl; [reflexivity|].
  intros H. apply orb_false_iff in H as [H1 H2]. rewrite H1. auto.
Qed.

Lemma existsb_false_find {A} (p : A -> bool) (l : list A) :
  existsb p l = false -> find p l = None.
Proof.
  induction l as [|x l IH]; simpl; [reflexivity|].
  intros H. apply orb_false_iff in H as [H1 H2]. rewrite H1. auto.
Qed.

Lemma find_app {A} (p : A -> bool) (l1 l2 : list A) :
  find p (l1 ++ l2) = match find p l1 with Some x => Some x | None => find p l2 end.
Proof.
  induction l1 as [|x l1 IH]; simpl; [reflexivity|].
  destruct (p x); auto.
Qed.

Lemma insert_urls_stmt_none d code url hash d1 :
  insert_urls_stmt d code url hash = Ok (None, d1) -> d1 = d /\ hash_in hash d = true.
Proof.
  unfold insert_urls_stmt.
  destruct (hash_in hash d); [intros H; inversion H; auto|].
  destruct (code_in code d); intros H; inversion H.
Qed.

(* ------------------------------------------------------------------ *)
(** ** C9: the fingerprint *)

(** C9. [sha256_bytes] is a function of the input's bytes: byte-identical
    inputs give byte-identical digests; every digest is 32 bytes long; and
    the function is SHA-256, as the FIPS 180-2 vector for "abc" shows. *)
Theorem sha256_bytes_deterministic (s1 s2 : string)
  (H : as_bytes s1 = as_bytes s2) :
  sha256_bytes s1 = sha256_bytes s2
  /\ List.length (sha256_bytes s1) = 32%nat
  /\ map Byte.to_N (sha256_bytes "abc"%string) =
     [0xba; 0x78; 0x16; 0xbf; 0x8f; 0x01; 0xcf; 0xea; 0x41; 0x41; 0x40; 0xde; 0x5d; 0xae; 0x22; 0x23;
      0xb0; 0x03; 0x61; 0xa3; 0x96; 0x17; 0x7a; 0x9c; 0xb4; 0x10; 0xff; 0x61; 0xf2; 0x00; 0x15; 0xad]%N.
Proof.
  split; [unfold sha256_bytes; now rewrite H|].
  split; [|vm_compute; reflexivity].
  unfold sha256_bytes, Sha256.sha256, Sha256.digest_bytes.
  rewrite !length_app, !be_bytes_length. reflexivity.
Qed.

Lemma sha256_bytes_deterministic_witness :
  as_bytes "https://example.com"%string = as_bytes "https://example.com"%string
  /\ sha256_bytes "https://example.com"%string = sha256_bytes "https://example.com"%string.
Proof.
  split; [reflexivity|].
  apply (sha256_bytes_deterministic "https://example.com"%string "https://example.com"%string).
  reflexivity.
Defined.

(* ------------------------------------------------------------------ *)
(** ** C10: shape of a successful [insert_url] *)

(** C10. A successful [insert_url] returns an [UpsertResult] whose id is the
    record's id; [created] is true exactly when the conditional insert
    returned a row, and then the record carries the caller's code; when
    [created] is false the state is unchanged and the record is the row
    found by the URL's digest. *)
Theorem insert_url_result_consistent (d : db) (code url : string)
  (res : UpsertResult) (rec : Urls) (d' : db)
  (H : insert_url d code url = (Ok (res, rec), d')) :
  upsert_id res = urls_id rec
  /\ (created res = true <->
      exists id, insert_urls_stmt d code url (sha256_bytes url) = Ok (Some id, d'))
  /\ (created res = true -> urls_code rec = code)
  /\ (created res = false ->
      insert_urls_stmt d code url (sha256_bytes url) = Ok (None, d)
      /\ d' = d /\ select_by_hash d (sha256_bytes url) = Some rec).
Proof.
  unfold insert_url in H.
  destruct (insert_urls_stmt d code url (sha256_bytes url)) as [[[id|] d1]|e] eqn:E.
  - inversion H; subst; clear H. simpl.
    repeat split; eauto; discriminate.
  - apply insert_urls_stmt_none in E as E'. destruct E' as [-> _].
    destruct (select_by_hash d (sha256_bytes url)) as [u|] eqn:S; inversion H; subst.
    simpl. repeat split; auto.
    + discriminate.
    + intros [id Hid]. discriminate.
    + discriminate.
  - discriminate.
Qed.

Lemma insert_url_result_consistent_witness :
  insert_url empty_db "aaa111" "https://example.com" =
    (Ok (mk_UpsertResult 1 true, mk_Urls 1 "aaa111"), run [OpInsertUrl "aaa111" "https://example.com"] empty_db)%string
  /\ upsert_id (mk_UpsertResult 1 true) = urls_id (mk_Urls 1 "aaa111"%string).
Proof.
  assert (H : insert_url empty_db "aaa111" "https://example.com" =
    (Ok (mk_UpsertResult 1 true, mk_Urls 1 "aaa111"), run [OpInsertUrl "aaa111" "https://example.com"] empty_db)%string)
    by (vm_compute; reflexivity).
  split; [exact H|].
  exact (proj1 (insert_url_result_consistent _ _ _ _ _ _ H)).
Defined.

(* ------------------------------------------------------------------ *)
(** ** C1: insert-or-fetch on the digest *)

(** A store holding one URL under code "aaa111". *)
Definition one_url_db : db :=
  run [OpInsertUrl "aaa111" "https://other.example"]%string empty_db.

(** C1 (counterexample). The URL's digest is not in [one_url_db], yet
    [insert_url] with the taken code "aaa111" fails with [Duplicate]
    instead of returning Created. *)
Lemma insert_url_first_call_duplicate :
  hash_in (sha256_bytes "https://example.com"%string) one_url_db = false
  /\ fst (insert_url one_url_db "aaa111" "https://example.com")%string = Err Duplicate.
Proof. vm_compute. split; reflexivity. Qed.


Lemma insert_url_unfold d code url :
  insert_url d code url =
  match insert_urls_stmt d code url (sha256_bytes url) with
  | Err e => (Err (insert_url_err e), d)
  | Ok (Some id, d1) => (Ok (mk_UpsertResult id true, mk_Urls id code), d1)
  | Ok (None, d1) =>
      match select_by_hash d1 (sha256_bytes url) with
      | None => (Err (query_err RowNotFound), d1)
      | Some existing_urls =>
          (Ok (mk_UpsertResult (urls_id existing_urls) false, existing_urls), d1)
      end
  end.
Proof. reflexivity. Qed.

(** Shape of [insert_url]: on success with [created = true] exactly one row
    is appended, otherwise the state is unchanged. *)
Lemma insert_url_cases (d : db) (code url : string) :
  (hash_in (sha256_bytes url) d = true
   /\ insert_url d code url =
      match select_by_hash d (sha256_bytes url) with
      | None => (Err (query_err RowNotFound), d)
      | Some u => (Ok (mk_UpsertResult (urls_id u) false, u), d)
      end)
  \/ (hash_in (sha256_bytes url) d = false /\ code_in code d = true
      /\ insert_url d code url = (Err (insert_url_err (UniqueViolation "urls" "code")), d))
  \/ (hash_in (sha256_bytes url) d = false /\ code_in code d = false
      /\ insert_url d code url =
         (Ok (mk_UpsertResult (next_id d) true, mk_Urls (next_id d) code),
          set_urls d (urls d ++ [mk_url_row (next_id d) code url (sha256_bytes url)]))).
Proof.
  rewrite insert_url_unfold. unfold insert_urls_stmt.
  destruct (hash_in (sha256_bytes url) d) eqn:Hh; [left; auto|right].
  destruct (code_in code d) eqn:Hc; [left; auto|right; auto].
Qed.

Lemma select_by_hash_some (d : db) (hash : list byte) :
  hash_in hash d = true -> exists r, In r (urls d) /\ row_hash r = hash
                                     /\ select_by_hash d hash = Some (mk_Urls (row_id r) (row_code r)).
Proof.
  intros H. unfold select_by_hash.
  destruct (find (fun r => bytes_eqb (row_hash r) hash) (urls d)) as [r|] eqn:F.
  - apply find_some in F as [Hr Hb]. exists r. repeat split; auto.
    unfold bytes_eqb in Hb. destruct (list_eq_dec Byte.byte_eq_dec (row_hash r) hash); congruence.
  - unfold hash_in in H. apply existsb_exists in H as [r [Hr Hb]].
    rewrite (find_none _ _ F r Hr) in Hb. discriminate.
Qed.

Lemma insert_url_err_unique_code :
  insert_url_err (UniqueViolation "urls" "code") = Duplicate.
Proof. vm_compute. reflexivity. Qed.

(** C1 (amended). Let the URL's digest be new. When [code1] is not
    stored either, [insert_url(code1, u)] creates a record, and a later
    [insert_url(code2, u)] returns [created = false] with the identical
    record (same id, code [code1]) and writes nothing: exactly one row
    carries the digest. When [code1] is already a canonical code, the first
    call fails with [Duplicate] and writes nothing. *)
Theorem insert_url_twice_same_record (d : db) (code1 code2 url : string)
  (Hh : hash_in (sha256_bytes url) d = false) :
  (code_in code1 d = false ->
   exists id d1,
    insert_url d code1 url = (Ok (mk_UpsertResult id true, mk_Urls id code1), d1)
    /\ insert_url d1 code2 url = (Ok (mk_UpsertResult id false, mk_Urls id code1), d1)
    /\ List.length (filter (fun r => bytes_eqb (row_hash r) (sha256_bytes url)) (urls d1)) = 1%nat)
  /\ (code_in code1 d = true -> insert_url d code1 url = (Err Duplicate, d)).
Proof.
  split.
  2:{ intros Hc. rewrite insert_url_unfold. unfold insert_urls_stmt. rewrite Hh, Hc.
      exact (f_equal (fun e => (Err e, d)) insert_url_err_unique_code). }
  intros Hc.
  exists (next_id d), (set_urls d (urls d ++ [mk_url_row (next_id d) code1 url (sha256_bytes url)])).
  rewrite !insert_url_unfold.
  generalize dependent (sha256_bytes url). intros hash Hh.
  unfold insert_urls_stmt at 1. rewrite Hh, Hc.
  split; [reflexivity|].
  assert (Hin : hash_in hash (set_urls d (urls d ++ [mk_url_row (next_id d) code1 url hash])) = true).
  { unfold hash_in, set_urls; cbn [urls]. apply existsb_exists.
    exists (mk_url_row (next_id d) code1 url hash). split.
    - apply in_or_app. right. left. reflexivity.
    - apply bytes_eqb_refl. }
  unfold insert_urls_stmt. rewrite Hin.
  unfold hash_in in Hh.
  split.
  - unfold select_by_hash, set_urls. cbn [urls]. rewrite find_app.
    rewrite (existsb_false_find _ _ Hh). cbn [find row_hash]. rewrite bytes_eqb_refl. reflexivity.
  - unfold set_urls. cbn [urls]. rewrite filter_app.
    rewrite (existsb_false_filter _ _ Hh). cbn [filter row_hash]. rewrite bytes_eqb_refl. reflexivity.
Qed.

Lemma insert_url_twice_same_record_witness :
  hash_in (sha256_bytes "https://example.com"%string) one_url_db = false
  /\ code_in "bbb222"%string one_url_db = false
  /\ (exists id d1,
    insert_url one_url_db "bbb222" "https://example.com" = (Ok (mk_UpsertResult id true, mk_Urls id "bbb222"), d1)
    /\ insert_url d1 "ccc333" "https://example.com" = (Ok (mk_UpsertResult id false, mk_Urls id "bbb222"), d1)
    /\ List.length (filter (fun r => bytes_eqb (row_hash r) (sha256_bytes "https://example.com")) (urls d1)) = 1%nat)
  /\ insert_url one_url_db "aaa111" "https://example.com" = (Err Duplicate, one_url_db).
Proof.
  split; [vm_compute; reflexivity|].
  split; [vm_compute; reflexivity|].
  split.
  - apply (proj1 (insert_url_twice_same_record one_url_db "bbb222" "ccc333" "https://example.com"
                    ltac:(vm_compute; reflexivity))).
    vm_compute; reflexivity.
  - apply (proj2 (insert_url_twice_same_record one_url_db "aaa111" "ccc333" "https://example.com"
                    ltac:(vm_compute; reflexivity))).
    vm_compute; reflexivity.
Defined.

(* ------------------------------------------------------------------ *)
(** ** C2: the Duplicate-code error of [insert_url] *)

(** The (table, column) pairs of the schema, the only ones a constraint
    failure can name. *)
Definition schema_columns : list (string * string) :=
  [("urls", "id"); ("urls", "code"); ("urls", "url"); ("urls", "url_hash");
   ("aliases", "alias"); ("aliases", "target_id");
   ("bloom_snapshots", "name"); ("bloom_snapshots", "data");
   ("bloom_snapshots", "updated_at")]%string.

Definition schema_error (e : sqlx_error) : Prop :=
  match e with
  | UniqueViolation t col | NotNullViolation t col => In (t, col) schema_columns
  | _ => True
  end.

(** A store with "aaa111" -> https://example.com and
    "bbb222" -> https://other.example. *)
Definition two_url_db : db :=
  run [OpInsertUrl "aaa111" "https://example.com";
       OpInsertUrl "bbb222" "https://other.example"]%string empty_db.

(** C2 (counterexample). Code "bbb222" belongs to the record of a different
    digest, but https://example.com is already stored: the conflict on
    [url_hash] wins and [insert_url] returns the existing record rather
    than [Duplicate]. *)
Lemma insert_url_taken_code_existing_digest :
  code_in "bbb222"%string two_url_db = true
  /\ select_by_hash two_url_db (sha256_bytes "https://other.example"%string) = Some (mk_Urls 2 "bbb222")
  /\ sha256_bytes "https://other.example"%string <> sha256_bytes "https://example.com"%string
  /\ fst (insert_url two_url_db "bbb222" "https://example.com")%string
     = Ok (mk_UpsertResult 1 false, mk_Urls 1 "aaa111"%string).
Proof.
  split; [vm_compute; reflexivity|].
  split; [vm_compute; reflexivity|].
  split; [vm_compute; discriminate|].
  vm_compute; reflexivity.
Qed.

Lemma insert_url_err_cases (e : sqlx_error) :
  insert_url_err e = Duplicate
  \/ insert_url_err e = QueryError (sqlx_error_to_string e).
Proof. unfold insert_url_err. destruct contains; auto. Qed.

(** C2 (amended). Let [code] already belong to a record. When the URL's
    digest is not stored, [insert_url] fails with [Duplicate] and writes
    nothing; when the digest is stored, the dedup path wins: [insert_url]
    returns the record found by the digest with [created = false] and
    writes nothing, although the code is taken. Of the failures the insert
    can report, exactly the UNIQUE violation on [urls.code] becomes
    [Duplicate]; every other one becomes [QueryError] with the error's
    text. *)
Theorem insert_url_duplicate_code (d : db) (code url : string)
  (Hc : code_in code d = true) :
  (hash_in (sha256_bytes url) d = false -> insert_url d code url = (Err Duplicate, d))
  /\ (hash_in (sha256_bytes url) d = true ->
      exists rec, select_by_hash d (sha256_bytes url) = Some rec
        /\ insert_url d code url = (Ok (mk_UpsertResult (urls_id rec) false, rec), d))
  /\ (forall e, schema_error e ->
       (insert_url_err e = Duplicate <-> e = UniqueViolation "urls" "code")
       /\ (e <> UniqueViolation "urls" "code" ->
           insert_url_err e = QueryError (sqlx_error_to_string e))).
Proof.
  split; [|split].
  - intros Hh. rewrite insert_url_unfold. unfold insert_urls_stmt. rewrite Hh, Hc.
    reflexivity.
  - intros Hh.
    destruct (select_by_hash_some _ _ Hh) as [r [_ [_ Hs]]].
    exists (mk_Urls (row_id r) (row_code r)). split; [exact Hs|].
    rewrite insert_url_unfold. unfold insert_urls_stmt. rewrite Hh, Hs. reflexivity.
  - intros e He.
    assert (Hiff : insert_url_err e = Duplicate <-> e = UniqueViolation "urls" "code").
    { destruct e; simpl in He;
        try (split; [vm_compute; discriminate | discriminate]).
      - repeat (destruct He as [He|He]; [inversion He; subst; vm_compute;
                  first [split; reflexivity | split; discriminate] |]).
        contradiction.
      - repeat (destruct He as [He|He]; [inversion He; subst; vm_compute;
                  split; discriminate |]).
        contradiction. }
    split; [exact Hiff|].
    intros Hne. destruct (insert_url_err_cases e) as [D|Q]; [|exact Q].
    exfalso. apply Hne, Hiff, D.
Qed.

Lemma insert_url_duplicate_code_witness :
  code_in "aaa111"%string one_url_db = true
  /\ insert_url one_url_db "aaa111" "https://new.example" = (Err Duplicate, one_url_db)
  /\ (exists rec, select_by_hash one_url_db (sha256_bytes "https://other.example") = Some rec
        /\ insert_url one_url_db "aaa111" "https://other.example"
           = (Ok (mk_UpsertResult (urls_id rec) false, rec), one_url_db)).
Proof.
  split; [vm_compute; reflexivity|].
  split.
  - apply (proj1 (insert_url_duplicate_code one_url_db "aaa111" "https://new.example"
                    ltac:(vm_compute; reflexivity))).
    vm_compute; reflexivity.
  - apply (proj1 (proj2 (insert_url_duplicate_code one_url_db "aaa111" "https://other.example"
                    ltac:(vm_compute; reflexivity)))).
    vm_compute; reflexivity.
Defined.

(* ------------------------------------------------------------------ *)
(** ** What each write touches *)

Lemma insert_url_state (d : db) (code url : string) :
  exists l, snd (insert_url d code url) = set_urls d (urls d ++ l).
Proof.
  assert (Hd : d = set_urls d (urls d ++ [])) by (destruct d; unfold set_urls; simpl; now rewrite app_nil_r).
  rewrite insert_url_unfold. unfold insert_urls_stmt.
  destruct (hash_in (sha256_bytes url) d).
  - exists []. destruct (select_by_hash d (sha256_bytes url)); exact Hd.
  - destruct (code_in code d).
    + exists []. exact Hd.
    + eexists. reflexivity.
Qed.

Lemma insert_alias_state (d : db) (a : string) (id : Z) :
  snd (insert_alias d a id) = d
  \/ (existsb (fun r => Z.eqb (row_id r) id) (urls d) = true
      /\ snd (insert_alias d a id) = set_aliases d (aliases d ++ [mk_alias_row a id])).
Proof.
  unfold insert_alias, insert_aliases_stmt.
  destruct (existsb (fun al => String.eqb (alias al) a) (aliases d)); [now left|].
  destruct (existsb (fun r => Z.eqb (row_id r) id) (urls d)); simpl; [now right|now left].
Qed.

Lemma save_bloom_state (d : db) (name : string) (data : list byte) :
  exists rows, snd (save_bloom_snapshot d name data) = set_blooms d rows.
Proof.
  unfold save_bloom_snapshot.
  destruct existsb; eexists; reflexivity.
Qed.

(* ------------------------------------------------------------------ *)
(** ** Referential integrity of aliases *)

(** Every alias row points at an existing canonical row. *)
Definition alias_targets_ok (d : db) : Prop :=
  Forall (fun al => exists r, In r (urls d) /\ row_id r = target_id al) (aliases d).

Lemma alias_targets_ok_grow (d : db) (l : list url_row) :
  alias_targets_ok d -> alias_targets_ok (set_urls d (urls d ++ l)).
Proof.
  unfold alias_targets_ok, set_urls; simpl.
  apply Forall_impl. intros al [r [Hr Hid]].
  exists r. split; [apply in_or_app; now left | exact Hid].
Qed.

Lemma step_alias_targets_ok (d : db) (o : op) :
  alias_targets_ok d -> alias_targets_ok (step d o).
Proof.
  intros H. destruct o as [code url|a id|n data|]; simpl.
  - destruct (insert_url_state d code url) as [l ->]. now apply alias_targets_ok_grow.
  - destruct (insert_alias_state d a id) as [->|[Ht ->]]; [exact H|].
    unfold alias_targets_ok, set_aliases in *; simpl.
    apply Forall_app. split; [exact H|].
    constructor; [|constructor].
    apply existsb_exists in Ht as [r [Hr Hid]].
    exists r. split; [exact Hr|]. simpl. now apply Z.eqb_eq.
  - destruct (save_bloom_state d n data) as [rows ->]. exact H.
  - exact H.
Qed.

Lemma run_alias_targets_ok (ops : list op) (d : db) :
  alias_targets_ok d -> alias_targets_ok (run ops d).
Proof.
  revert d; induction ops as [|o ops IH]; intros d H; simpl; [exact H|].
  apply IH, step_alias_targets_ok, H.
Qed.

(* ------------------------------------------------------------------ *)
(** ** The merged view *)

Lemma in_all_short_codes (d : db) (p : string * string) :
  In p (all_short_codes d) <->
  (exists r, In r (urls d) /\ p = (row_code r, row_url r))
  \/ (exists al r, In al (aliases d) /\ In r (urls d) /\ row_id r = target_id al
                   /\ p = (alias al, row_url r)).
Proof.
  unfold all_short_codes. rewrite in_app_iff, in_map_iff, in_flat_map.
  split.
  - intros [[r [Hp Hr]]|[al [Hal Hp]]]; [left; eauto|right].
    apply in_map_iff in Hp as [r [Hp Hr]]. apply filter_In in Hr as [Hr Hid].
    exists al, r. repeat split; auto. now apply Z.eqb_eq.
  - intros [[r [Hr Hp]]|[al [r [Hal [Hr [Hid Hp]]]]]]; [left; eauto|right].
    exists al. split; [exact Hal|]. apply in_map_iff. exists r.
    split; [auto|]. apply filter_In. split; [exact Hr|]. now apply Z.eqb_eq.
Qed.

Lemma get_url_view (d : db) (code : string) (H : alias_targets_ok d) :
  (forall u, get_url d code = Ok u ->
     (exists r, In r (urls d) /\ row_code r = code /\ row_url r = u)
     \/ (exists al r, In al (aliases d) /\ alias al = code /\ In r (urls d)
                      /\ row_id r = target_id al /\ row_url r = u))
  /\ (get_url d code = Err NotFound <->
      (~ exists r, In r (urls d) /\ row_code r = code)
      /\ (~ exists al, In al (aliases d) /\ alias al = code))
  /\ (forall e, get_url d code = Err e -> e = NotFound).
Proof.
  unfold get_url.
  destruct (find (fun p => String.eqb (fst p) code) (all_short_codes d)) as [p|] eqn:F.
  - apply find_some in F as [Hin Hc]. apply String.eqb_eq in Hc.
    apply in_all_short_codes in Hin.
    split; [|split].
    + intros u Hu. inversion Hu; subst u.
      destruct Hin as [[r [Hr ->]]|[al [r [Hal [Hr [Hid ->]]]]]]; simpl in *.
      * left. eauto.
      * right. exists al, r. auto.
    + split; [discriminate|]. intros [N1 N2]. exfalso.
      destruct Hin as [[r [Hr ->]]|[al [r [Hal [Hr [Hid ->]]]]]]; simpl in *.
      * apply N1. eauto.
      * apply N2. eauto.
    + discriminate.
  - split; [discriminate|]. split; [|intros e He; now inversion He].
    split; [intros _|reflexivity].
    pose proof (find_none _ _ F) as N.
    split.
    + intros [r [Hr Hc]].
      assert (Hv : In (row_code r, row_url r) (all_short_codes d))
        by (apply in_all_short_codes; left; eauto).
      specialize (N _ Hv). simpl in N. rewrite Hc, String.eqb_refl in N. discriminate.
    + intros [al [Hal Hc]].
      unfold alias_targets_ok in H. rewrite Forall_forall in H.
      destruct (H al Hal) as [r [Hr Hid]].
      assert (Hv : In (alias al, row_url r) (all_short_codes d))
        by (apply in_all_short_codes; right; exists al, r; auto).
      specialize (N _ Hv). simpl in N. rewrite Hc, String.eqb_refl in N. discriminate.
Qed.

Lemma empty_alias_targets_ok : alias_targets_ok empty_db.
Proof. constructor. Qed.

(* ------------------------------------------------------------------ *)
(** ** C3: [get_url] over the merged view *)

(** C3. In every state reached from the migrated database by any sequence
    of writes, [get_url code] answers from the merged view: an [Ok u] comes
    from a canonical row with that code or from an alias with that code
    joined through [target_id] to its canonical row; it fails with
    [NotFound] exactly when [code] is neither a canonical nor an alias code,
    and [NotFound] is its only failure. *)
Theorem get_url_merged_view (ops : list op) (code : string) :
  let d := run ops empty_db in
  (forall u, get_url d code = Ok u ->
     (exists r, In r (urls d) /\ row_code r = code /\ row_url r = u)
     \/ (exists al r, In al (aliases d) /\ alias al = code /\ In r (urls d)
                      /\ row_id r = target_id al /\ row_url r = u))
  /\ (get_url d code = Err NotFound <->
      (~ exists r, In r (urls d) /\ row_code r = code)
      /\ (~ exists al, In al (aliases d) /\ alias al = code))
  /\ (forall e, get_url d code = Err e -> e = NotFound).
Proof.
  intros d. apply get_url_view.
  apply run_alias_targets_ok, empty_alias_targets_ok.
Qed.

Lemma get_url_merged_view_witness :
  get_url example_db "ccc333"%string = Ok "https://example.com"%string
  /\ ((~ exists r, In r (urls example_db) /\ row_code r = "bbb222"%string)
      /\ (~ exists al, In al (aliases example_db) /\ alias al = "bbb222"%string)
      -> get_url example_db "bbb222"%string = Err NotFound).
Proof.
  split; [vm_compute; reflexivity|].
  apply (proj1 (proj2 (get_url_merged_view
    [OpInsertUrl "aaa111" "https://example.com";
     OpInsertUrl "bbb222" "https://example.com";
     OpInsertAlias "ccc333" 1]%string "bbb222"%string))).
Defined.

(* ------------------------------------------------------------------ *)
(** ** C7: no dangling alias *)

(** C7. [insert_alias a id] fails, leaving the state unchanged, whenever no
    canonical row has id [id] (the foreign key on [target_id]); hence every
    run of writes from a state without dangling aliases, the migrated
    database in particular, ends in a state without dangling aliases. *)
Theorem insert_alias_no_dangling (d : db) (a : string) (id : Z)
  (H : existsb (fun r => Z.eqb (row_id r) id) (urls d) = false) :
  (exists e, insert_alias d a id = (Err e, d))
  /\ (forall ops d0, alias_targets_ok d0 -> alias_targets_ok (run ops d0))
  /\ (forall ops, alias_targets_ok (run ops empty_db)).
Proof.
  split; [|split].
  - unfold insert_alias, insert_aliases_stmt. rewrite H.
    destruct (existsb (fun al => String.eqb (alias al) a) (aliases d));
      eexists; reflexivity.
  - exact run_alias_targets_ok.
  - intros ops. apply run_alias_targets_ok, empty_alias_targets_ok.
Qed.

Lemma insert_alias_no_dangling_witness :
  existsb (fun r => Z.eqb (row_id r) 99) (urls example_db) = false
  /\ exists e, insert_alias example_db "ddd444" 99 = (Err e, example_db).
Proof.
  split; [vm_compute; reflexivity|].
  apply (insert_alias_no_dangling example_db "ddd444"%string 99).
  vm_compute; reflexivity.
Defined.

(* ------------------------------------------------------------------ *)
(** ** C5: bloom snapshots *)

Definition bloom_lookup (d : db) (n : string) : option (list byte) :=
  option_map bloom_data (find (fun r => String.eqb (bloom_name r) n) (bloom_snapshots d)).

(** The payload of the last [OpSaveBloom n _] of a run, if any. *)
Definition last_saved (ops : list op) (n : string) (acc : option (list byte)) : option (list byte) :=
  fold_left (fun acc o =>
               match o with
               | OpSaveBloom n' data => if String.eqb n' n then Some data else acc
               | _ => acc
               end) ops acc.

Lemma bloom_upd_name name data now r : bloom_name (bloom_upd name data now r) = bloom_name r.
Proof.
  unfold bloom_upd. destruct (String.eqb_spec (bloom_name r) name); simpl; congruence.
Qed.

Lemma find_bloom_upd_other (rows : list bloom_row) name data now n :
  name <> n ->
  option_map bloom_data (find (fun r => String.eqb (bloom_name r) n) (map (bloom_upd name data now) rows))
  = option_map bloom_data (find (fun r => String.eqb (bloom_name r) n) rows).
Proof.
  intros Hne. induction rows as [|r rows IH]; simpl; [reflexivity|].
  rewrite bloom_upd_name.
  destruct (String.eqb_spec (bloom_name r) n) as [E|E]; [|exact IH].
  unfold bloom_upd. destruct (String.eqb_spec (bloom_name r) name); [congruence|reflexivity].
Qed.

Lemma find_bloom_upd_same (rows : list bloom_row) name data now :
  existsb (fun r => String.eqb (bloom_name r) name) rows = true ->
  find (fun r => String.eqb (bloom_name r) name) (map (bloom_upd name data now) rows)
  = Some (mk_bloom_row name data now).
Proof.
  induction rows as [|r rows IH]; simpl; [discriminate|].
  rewrite bloom_upd_name.
  destruct (String.eqb_spec (bloom_name r) name) as [E|E]; simpl; [|exact IH].
  intros _. unfold bloom_upd. rewrite E, String.eqb_refl. reflexivity.
Qed.

Lemma save_bloom_lookup (d : db) (name n : string) (data : list byte) :
  bloom_lookup (snd (save_bloom_snapshot d name data)) n
  = if String.eqb name n then Some data else bloom_lookup d n.
Proof.
  unfold save_bloom_snapshot, bloom_lookup.
  destruct (existsb (fun r => String.eqb (bloom_name r) name) (bloom_snapshots d)) eqn:E;
    simpl.
  - destruct (String.eqb_spec name n) as [<-|Hne].
    + rewrite (find_bloom_upd_same _ _ _ _ E). reflexivity.
    + apply (find_bloom_upd_other _ _ _ _ _ Hne).
  - rewrite find_app.
    destruct (String.eqb_spec name n) as [<-|Hne].
    + rewrite (existsb_false_find _ _ E). simpl. rewrite String.eqb_refl. reflexivity.
    + destruct (find _ (bloom_snapshots d)); [reflexivity|].
      simpl. apply String.eqb_neq in Hne. rewrite Hne. reflexivity.
Qed.

Lemma step_bloom_lookup (d : db) (o : op) (n : string) :
  bloom_lookup (step d o) n =
  match o with
  | OpSaveBloom n' data => if String.eqb n' n then Some data else bloom_lookup d n
  | _ => bloom_lookup d n
  end.
Proof.
  destruct o as [code url|a id|n' data|]; simpl.
  - destruct (insert_url_state d code url) as [l ->]. reflexivity.
  - destruct (insert_alias_state d a id) as [->|[_ ->]]; reflexivity.
  - apply save_bloom_lookup.
  - reflexivity.
Qed.

Lemma run_bloom_lookup (ops : list op) (d : db) (n : string) :
  bloom_lookup (run ops d) n = last_saved ops n (bloom_lookup d n).
Proof.
  revert d; induction ops as [|o ops IH]; intros d; simpl; [reflexivity|].
  rewrite IH, step_bloom_lookup. unfold last_saved. simpl.
  destruct o; reflexivity.
Qed.

Lemma step_bloom_names_nodup (d : db) (o : op) :
  NoDup (map bloom_name (bloom_snapshots d)) ->
  NoDup (map bloom_name (bloom_snapshots (step d o))).
Proof.
  intros H. destruct o as [code url|a id|n data|]; simpl.
  - destruct (insert_url_state d code url) as [l ->]. exact H.
  - destruct (insert_alias_state d a id) as [->|[_ ->]]; exact H.
  - unfold save_bloom_snapshot.
    destruct (existsb (fun r => String.eqb (bloom_name r) n) (bloom_snapshots d)) eqn:E;
      simpl.
    + rewrite map_map.
      erewrite map_ext; [exact H|]. intros r. apply bloom_upd_name.
    + rewrite map_app. apply NoDup_app; [exact H|repeat constructor; auto|].
      intros x Hx [<-|[]]. simpl in Hx.
      apply in_map_iff in Hx as [r [Hr Hin]].
      assert (Hf : existsb (fun r => String.eqb (bloom_name r) n) (bloom_snapshots d) = true)
        by (apply existsb_exists; exists r; split; [exact Hin|]; rewrite Hr; apply String.eqb_refl).
      congruence.
  - exact H.
Qed.

Lemma run_bloom_names_nodup (ops : list op) (d : db) :
  NoDup (map bloom_name (bloom_snapshots d)) ->
  NoDup (map bloom_name (bloom_snapshots (run ops d))).
Proof.
  revert d; induction ops as [|o ops IH]; intros d H; simpl; [exact H|].
  apply IH, step_bloom_names_nodup, H.
Qed.

(** C5. After any run of writes on the migrated database,
    [load_bloom_snapshot n] succeeds and returns [None] when the run saved
    nothing under [n], and otherwise exactly the payload of the last save
    under [n] (a later save replaces the whole blob); the snapshot table
    holds at most one row per name. *)
Theorem bloom_snapshot_last_write_wins (ops : list op) (n : string) :
  load_bloom_snapshot (run ops empty_db) n = Ok (last_saved ops n None)
  /\ NoDup (map bloom_name (bloom_snapshots (run ops empty_db))).
Proof.
  split.
  - change (@Ok _ DatabaseError (bloom_lookup (run ops empty_db) n)
            = Ok (last_saved ops n None)).
    rewrite run_bloom_lookup. reflexivity.
  - apply run_bloom_names_nodup. constructor.
Qed.

Example bloom_snapshot_example :
  let d := run [OpSaveBloom "filterA" [x01; x02]; Tick; OpSaveBloom "filterA" [x03]]%string empty_db in
  load_bloom_snapshot d "filterA"%string = Ok (Some [x03])
  /\ load_bloom_snapshot d "neverSaved"%string = Ok None
  /\ List.length (bloom_snapshots d) = 1%nat.
Proof. vm_compute. repeat split. Qed.

(* ------------------------------------------------------------------ *)
(** ** C4, C8: [insert_alias] *)

Lemma insert_alias_ok (d : db) (a : string) (id : Z)
  (Ha : existsb (fun al => String.eqb (alias al) a) (aliases d) = false)
  (Ht : existsb (fun r => Z.eqb (row_id r) id) (urls d) = true) :
  insert_alias d a id = (Ok tt, set_aliases d (aliases d ++ [mk_alias_row a id])).
Proof. unfold insert_alias, insert_aliases_stmt. now rewrite Ha, Ht. Qed.

Lemma insert_alias_err_unique : insert_alias_err (UniqueViolation "aliases" "alias") = Duplicate.
Proof. vm_compute. reflexivity. Qed.

Lemma insert_alias_err_fk :
  insert_alias_err ForeignKeyViolation = QueryError (sqlx_error_to_string ForeignKeyViolation).
Proof. vm_compute. reflexivity. Qed.

(** C4 (counterexample). On the migrated database, the first
    [insert_alias "ccc333" 1] already fails: no canonical row has id 1, and
    the foreign-key failure surfaces as [QueryError]. *)
Lemma insert_alias_first_call_fails :
  fst (insert_alias empty_db "ccc333"%string 1)
  = Err (QueryError (sqlx_error_to_string ForeignKeyViolation)).
Proof. vm_compute. reflexivity. Qed.

(** C4 (amended). Let [a] not yet be an alias. When [id] is the id of a
    canonical row, [insert_alias a id] succeeds and adds the mapping, and a
    second [insert_alias a id'] (any [id']) fails with [Duplicate] and
    leaves the state, with the first mapping, as it was. When no canonical
    row has id [id], the first call already fails with the foreign-key
    [QueryError] and writes nothing. *)
Theorem insert_alias_twice_duplicate (d : db) (a : string) (id id' : Z)
  (Ha : existsb (fun al => String.eqb (alias al) a) (aliases d) = false) :
  (existsb (fun r => Z.eqb (row_id r) id) (urls d) = true ->
   let d1 := set_aliases d (aliases d ++ [mk_alias_row a id]) in
   insert_alias d a id = (Ok tt, d1)
   /\ insert_alias d1 a id' = (Err Duplicate, d1)
   /\ In (mk_alias_row a id) (aliases d1))
  /\ (existsb (fun r => Z.eqb (row_id r) id) (urls d) = false ->
      insert_alias d a id
      = (Err (QueryError (sqlx_error_to_string ForeignKeyViolation)), d)).
Proof.
  split.
  2:{ intros Ht. unfold insert_alias, insert_aliases_stmt. rewrite Ha, Ht.
      cbn [negb]. rewrite insert_alias_err_fk. reflexivity. }
  intros Ht d1. split; [apply insert_alias_ok; assumption|].
  assert (Hin : In (mk_alias_row a id) (aliases d1))
    by (unfold d1, set_aliases; simpl; apply in_or_app; right; now left).
  split; [|exact Hin].
  unfold insert_alias, insert_aliases_stmt.
  assert (E : existsb (fun al => String.eqb (alias al) a) (aliases d1) = true)
    by (apply existsb_exists; exists (mk_alias_row a id); split; [exact Hin|apply String.eqb_refl]).
  rewrite E, insert_alias_err_unique. reflexivity.
Qed.

Lemma insert_alias_twice_duplicate_witness :
  existsb (fun al => String.eqb (alias al) "ddd444") (aliases example_db) = false
  /\ existsb (fun r => Z.eqb (row_id r) 1) (urls example_db) = true
  /\ insert_alias (set_aliases example_db (aliases example_db ++ [mk_alias_row "ddd444" 1]))
       "ddd444" 7 = (Err Duplicate, set_aliases example_db (aliases example_db ++ [mk_alias_row "ddd444" 1]))
  /\ insert_alias example_db "ddd444" 99
     = (Err (QueryError (sqlx_error_to_string ForeignKeyViolation)), example_db).
Proof.
  split; [vm_compute; reflexivity|].
  split; [vm_compute; reflexivity|].
  split.
  - exact (proj1 (proj2 (proj1 (insert_alias_twice_duplicate example_db "ddd444"%string 1 7
                         ltac:(vm_compute; reflexivity)) ltac:(vm_compute; reflexivity)))).
  - exact (proj2 (insert_alias_twice_duplicate example_db "ddd444"%string 99 7
                    ltac:(vm_compute; reflexivity)) ltac:(vm_compute; reflexivity)).
Defined.

(** C8 (counterexample). "aaa111" is a canonical code of [one_url_db], and
    [insert_alias "aaa111" 1] succeeds: the alias code is not checked
    against the canonical namespace. *)
Lemma insert_alias_canonical_code_accepted :
  code_in "aaa111"%string one_url_db = true
  /\ fst (insert_alias one_url_db "aaa111"%string 1) = Ok tt.
Proof. vm_compute. split; reflexivity. Qed.

(** C8 (amended). [insert_alias] does not look at the canonical codes: for
    an alias code [a] that is already a canonical code, it succeeds and adds
    the alias row whenever [a] is not yet an alias and [id] is an existing
    canonical id; the collision is left to the read view. *)
Theorem insert_alias_ignores_canonical (d : db) (a : string) (id : Z)
  (Hcode : code_in a d = true)
  (Ha : existsb (fun al => String.eqb (alias al) a) (aliases d) = false)
  (Ht : existsb (fun r => Z.eqb (row_id r) id) (urls d) = true) :
  insert_alias d a id = (Ok tt, set_aliases d (aliases d ++ [mk_alias_row a id])).
Proof. apply insert_alias_ok; assumption. Qed.

Lemma insert_alias_ignores_canonical_witness :
  code_in "aaa111"%string one_url_db = true
  /\ insert_alias one_url_db "aaa111" 1
     = (Ok tt, set_aliases one_url_db (aliases one_url_db ++ [mk_alias_row "aaa111" 1])).
Proof.
  split; [vm_compute; reflexivity|].
  apply insert_alias_ignores_canonical; vm_compute; reflexivity.
Defined.

(* ------------------------------------------------------------------ *)
(** ** C6: pagination of [list_short_codes] *)

Lemma firstn_add_skipn {A} (n m : nat) (l : list A) :
  firstn (n + m) l = firstn n l ++ firstn m (skipn n l).
Proof.
  revert l; induction n as [|n IH]; intros l; [reflexivity|].
  destruct l as [|x l]; simpl; [now destruct m|]. now rewrite IH.
Qed.

Lemma limit_rows_firstn {A} (l : Z) (rows : list A) :
  0 <= l -> limit_rows l rows = firstn (Z.to_nat l) rows.
Proof.
  revert l; induction rows as [|x rows IH]; intros l Hl; simpl.
  - now destruct (Z.to_nat l).
  - destruct (Z.leb_spec l 0).
    + now replace (Z.to_nat l) with 0%nat by lia.
    + replace (Z.to_nat l) with (S (Z.to_nat (l - 1))) by lia.
      simpl. rewrite IH by lia. reflexivity.
Qed.

Lemma offset_rows_skipn {A} (o : Z) (rows : list A) :
  0 <= o -> offset_rows o rows = skipn (Z.to_nat o) rows.
Proof.
  revert o; induction rows as [|x rows IH]; intros o Ho; simpl.
  - now destruct (Z.to_nat o).
  - destruct (Z.leb_spec o 0).
    + now replace (Z.to_nat o) with 0%nat by lia.
    + replace (Z.to_nat o) with (S (Z.to_nat (o - 1))) by lia.
      simpl. apply IH. lia.
Qed.

(** The codes of window [k] of size [L]: [list_short_codes(k * L, L)]. *)
Definition window (d : db) (L : Z) (k : nat) : list string :=
  match list_short_codes d (Z.of_nat k * L) L with Ok l => l | Err _ => [] end.

(** While every offset [k * L] (k < n) and the limit [L] stay below 2^63,
    [as i64] changes nothing and consecutive windows tile the view: the
    first [n] windows are its first [n * L] codes. *)
Lemma windows_tile (d : db) (L : Z) (n : nat)
  (HL : 0 <= L < 2 ^ 63)
  (Hk : forall k, (k < n)%nat -> Z.of_nat k * L < 2 ^ 63) :
  List.concat (map (window d L) (seq 0 n)) = firstn (n * Z.to_nat L) (map fst (all_short_codes d)).
Proof.
  induction n as [|n IH]; [reflexivity|].
  rewrite seq_S, map_app, concat_app, IH by (intros k Hk'; apply Hk; lia). simpl. rewrite app_nil_r.
  unfold window, list_short_codes, u64_as_i64, limit_offset.
  assert (Hn : Z.of_nat n * L < 2 ^ 63) by (apply Hk; lia).
  assert (Hn0 : 0 <= Z.of_nat n * L) by nia.
  destruct (Z.ltb_spec (Z.of_nat n * L) (2 ^ 63)); [|lia].
  destruct (Z.ltb_spec L (2 ^ 63)); [|lia].
  destruct (Z.ltb_spec L 0); [lia|].
  rewrite limit_rows_firstn, offset_rows_skipn by lia.
  rewrite Z2Nat.inj_mul, Nat2Z.id by lia.
  rewrite <- firstn_add_skipn. f_equal. lia.
Qed.

(** C6 (code bug). On a one-code store, windows of size 2^62 at offsets 0,
    2^62 and 2^63 return "aaa111", nothing, and "aaa111" again: the offset
    2^63 becomes -2^63 under [as i64], which SQLite reads as offset 0. *)
Theorem list_short_codes_offset_wraps :
  list_short_codes one_url_db 0 (2 ^ 62) = Ok ["aaa111"%string]
  /\ list_short_codes one_url_db (2 ^ 62) (2 ^ 62) = Ok []
  /\ list_short_codes one_url_db (2 ^ 63) (2 ^ 62) = Ok ["aaa111"%string]
  /\ List.concat (map (window one_url_db (2 ^ 62)) (seq 0 3)) = ["aaa111"; "aaa111"]%string.
Proof. vm_compute. repeat split. Qed.

(* ================================================================== *)
(** * Further properties of sqlite.rs *)

(* ------------------------------------------------------------------ *)
(** ** [get_connection_pool]: the pool size *)

Definition MAX_CAP : Z := 64.
Definition MIN_CAP : Z := 1.

(** [Ord::clamp] (min <= max here). *)
Definition clamp (x lo hi : Z) : Z :=
  if x <? lo then lo else if hi <? x then hi else x.

(** [usize::saturating_mul] on a 64-bit target. *)
Definition usize_saturating_mul (x y : Z) : Z := Z.min (x * y) (2 ^ 64 - 1).

(** [x as u32] for a [usize] value. *)
Definition usize_as_u32 (x : Z) : Z := x mod 2 ^ 32.

(** The [max_connections] [get_connection_pool] hands to the pool, given
    [num_cpus::get()] and [config.max_connections]. *)
Definition pool_max_conn (num_cpus : Z) (max_connections : option Z) : Z :=
  let cores := Z.max num_cpus MIN_CAP in
  let default_max := usize_as_u32 (Z.max (usize_saturating_mul cores 2) 4) in
  let max_conn := match max_connections with Some m => m | None => default_max end in
  clamp max_conn MIN_CAP MAX_CAP.

(* ------------------------------------------------------------------ *)
(** ** Helper lemmas on rows *)

Lemma find_all_false {A} (p : A -> bool) (l : list A) :
  (forall x, In x l -> p x = false) -> find p l = None.
Proof.
  induction l as [|x l IH]; intros H; simpl; [reflexivity|].
  rewrite (H x (or_introl eq_refl)). apply IH. intros y Hy. apply H. now right.
Qed.

Lemma existsb_false_forall {A} (p : A -> bool) (l : list A) :
  existsb p l = false -> forall x, In x l -> p x = false.
Proof.
  intros H x Hx. destruct (p x) eqn:E; [|reflexivity].
  assert (existsb p l = true) by (apply existsb_exists; eauto). congruence.
Qed.

Lemma fold_max_ge (l : list url_row) (acc : Z) :
  acc <= fold_left (fun m r => Z.max m (row_id r)) l acc
  /\ forall r, In r l -> row_id r <= fold_left (fun m r => Z.max m (row_id r)) l acc.
Proof.
  revert acc; induction l as [|x l IH]; intros acc; simpl; [split; [lia|tauto]|].
  destruct (IH (Z.max acc (row_id x))) as [H1 H2]. split; [lia|].
  intros r [<-|Hr]; [lia|auto].
Qed.

Lemma next_id_fresh (d : db) (r : url_row) : In r (urls d) -> row_id r < next_id d.
Proof.
  intros Hr. unfold next_id. destruct (fold_max_ge (urls d) 0) as [_ H]. specialize (H r Hr). lia.
Qed.

Lemma next_id_pos (d : db) : 0 < next_id d.
Proof. unfold next_id. destruct (fold_max_ge (urls d) 0) as [H _]. lia. Qed.


Lemma select_by_hash_appended (d : db) (code url : string) (hash : list byte) :
  hash_in hash d = false ->
  select_by_hash (set_urls d (urls d ++ [mk_url_row (next_id d) code url hash])) hash
  = Some (mk_Urls (next_id d) code).
Proof.
  intros Hh. unfold select_by_hash, set_urls. cbn [urls]. rewrite find_app.
  unfold hash_in in Hh. rewrite (existsb_false_find _ _ Hh).
  cbn [find row_hash]. rewrite bytes_eqb_refl. reflexivity.
Qed.

Lemma hash_in_appended (d : db) (code url : string) (hash : list byte) (id : Z) :
  hash_in hash (set_urls d (urls d ++ [mk_url_row id code url hash])) = true.
Proof.
  unfold hash_in, set_urls. cbn [urls]. apply existsb_exists.
  exists (mk_url_row id code url hash). split; [apply in_or_app; right; now left|apply bytes_eqb_refl].
Qed.

(* ------------------------------------------------------------------ *)
(** ** [insert_url] *)


(** After a successful [insert_url(code, url)], looking the URL up by
    digest ([get_id_by_url]) returns the record [insert_url] returned, and
    any later [insert_url(code2, url)] returns that record with
    [created = false] and writes nothing. *)
Theorem insert_url_then_lookup (d : db) (code code2 url : string)
  (res : UpsertResult) (rec : Urls) (d' : db)
  (H : insert_url d code url = (Ok (res, rec), d')) :
  get_id_by_url d' url = Ok rec
  /\ insert_url d' code2 url = (Ok (mk_UpsertResult (urls_id rec) false, rec), d').
Proof.
  assert (Hsel : hash_in (sha256_bytes url) d' = true
                 /\ select_by_hash d' (sha256_bytes url) = Some rec).
  { destruct (insert_url_cases d code url) as [[Hh E]|[[Hh [Hc E]]|[Hh [Hc E]]]];
      rewrite E in H.
    - destruct (select_by_hash_some _ _ Hh) as [r [_ [_ Hs]]].
      rewrite Hs in H. inversion H; subst. auto.
    - discriminate.
    - inversion H; subst. split; [apply hash_in_appended|].
      apply select_by_hash_appended, Hh. }
  destruct Hsel as [Hh Hs].
  split; [unfold get_id_by_url; now rewrite Hs|].
  destruct (insert_url_cases d' code2 url) as [[_ E]|[[Hh' _]|[Hh' _]]]; [|congruence|congruence].
  rewrite E, Hs. reflexivity.
Qed.

Lemma insert_url_then_lookup_witness :
  get_id_by_url (run [OpInsertUrl "aaa111" "https://example.com"] empty_db) "https://example.com"
  = Ok (mk_Urls 1 "aaa111")%string.
Proof.
  exact (proj1 (insert_url_then_lookup empty_db "aaa111" "zzz999" "https://example.com"
                  (mk_UpsertResult 1 true) (mk_Urls 1 "aaa111")
                  (run [OpInsertUrl "aaa111" "https://example.com"] empty_db)
                  ltac:(vm_compute; reflexivity)))%string.
Defined.

(** When [insert_url(code, url)] creates the record, [get_url(code)]
    resolves to [url] afterwards (canonical rows come first in the view). *)
Theorem insert_url_created_resolves (d : db) (code url : string)
  (res : UpsertResult) (rec : Urls) (d' : db)
  (H : insert_url d code url = (Ok (res, rec), d'))
  (Hc : created res = true) :
  get_url d' code = Ok url.
Proof.
  destruct (insert_url_cases d code url) as [[Hh E]|[[Hh [Hc' E]]|[Hh [Hc' E]]]];
    rewrite E in H.
  - destruct (select_by_hash_some _ _ Hh) as [r [_ [_ Hs]]].
    rewrite Hs in H. inversion H; subst. discriminate.
  - discriminate.
  - inversion H; subst. unfold get_url, all_short_codes, set_urls. cbn [urls aliases].
    rewrite map_app, <- app_assoc, find_app.
    rewrite find_all_false.
    + simpl. rewrite String.eqb_refl. reflexivity.
    + intros p Hp. apply in_map_iff in Hp as [r [<- Hr]]. simpl.
      exact (existsb_false_forall _ _ Hc' r Hr).
Qed.

Lemma insert_url_created_resolves_witness :
  get_url (run [OpInsertUrl "aaa111" "https://example.com"] empty_db) "aaa111"
  = Ok "https://example.com"%string.
Proof.
  exact (insert_url_created_resolves empty_db "aaa111" "https://example.com"
           (mk_UpsertResult 1 true) (mk_Urls 1 "aaa111")
           (run [OpInsertUrl "aaa111" "https://example.com"] empty_db)
           ltac:(vm_compute; reflexivity) eq_refl)%string.
Defined.


(** Codes, digests and ids are pairwise distinct among the [urls] rows, and
    ids are positive. *)
Definition urls_unique (d : db) : Prop :=
  NoDup (map row_code (urls d)) /\ NoDup (map row_hash (urls d))
  /\ NoDup (map row_id (urls d)) /\ Forall (fun r => 0 < row_id r) (urls d).

Lemma NoDup_snoc {A} (l : list A) (x : A) : NoDup l -> ~ In x l -> NoDup (l ++ [x]).
Proof.
  intros H Hx. apply NoDup_app; [exact H|repeat constructor; auto|].
  intros y Hy [<-|[]]. contradiction.
Qed.

Lemma step_urls_unique (d : db) (o : op) : urls_unique d -> urls_unique (step d o).
Proof.
  intros H. destruct o as [code url|a id|n data|]; simpl.
  - destruct (insert_url_cases d code url) as [[Hh E]|[[Hh [Hc E]]|[Hh [Hc E]]]];
      rewrite E; [destruct (select_by_hash d (sha256_bytes url)); exact H|exact H|].
    destruct H as [H1 [H2 [H3 H4]]]. cbn [snd]. unfold urls_unique, set_urls. cbn [urls].
    rewrite !map_app. simpl. repeat split.
    + apply NoDup_snoc; [exact H1|]. intros Hin. apply in_map_iff in Hin as [r [Er Hr]].
      pose proof (existsb_false_forall _ _ Hc r Hr) as F. simpl in F.
      rewrite Er, String.eqb_refl in F. discriminate.
    + apply NoDup_snoc; [exact H2|]. intros Hin. apply in_map_iff in Hin as [r [Er Hr]].
      pose proof (existsb_false_forall _ _ Hh r Hr) as F. simpl in F.
      rewrite Er, bytes_eqb_refl in F. discriminate.
    + apply NoDup_snoc; [exact H3|]. intros Hin. apply in_map_iff in Hin as [r [Er Hr]].
      pose proof (next_id_fresh d r Hr). lia.
    + apply Forall_app. split; [exact H4|]. constructor; [apply next_id_pos|constructor].
  - destruct (insert_alias_state d a id) as [->|[_ ->]]; exact H.
  - destruct (save_bloom_state d n data) as [rows ->]. exact H.
  - exact H.
Qed.

(** In every state reached from the migrated database, no two [urls] rows
    share a code, a digest or an id, and every id is positive: [insert_url]
    never writes a second row for a digest or a code. *)
Theorem reachable_urls_unique (ops : list op) : urls_unique (run ops empty_db).
Proof.
  assert (G : forall ops d, urls_unique d -> urls_unique (run ops d)).
  { intros ops0. induction ops0 as [|o ops0 IH]; intros d H; simpl; [exact H|].
    apply IH, step_urls_unique, H. }
  apply G. repeat split; constructor.
Qed.

(* ------------------------------------------------------------------ *)
(** ** [insert_alias] *)


(** The outcome of [insert_alias a id]: success exactly when [a] is not yet
    an alias and [id] is a canonical id; [Duplicate] exactly when [a] is
    already an alias (whatever [id] is); the foreign-key [QueryError]
    exactly when [a] is new and [id] does not exist. A failed call writes
    nothing. *)
Theorem insert_alias_outcomes (d : db) (a : string) (id : Z) :
  let taken := existsb (fun al => String.eqb (alias al) a) (aliases d) in
  let target := existsb (fun r => Z.eqb (row_id r) id) (urls d) in
  (fst (insert_alias d a id) = Ok tt <-> taken = false /\ target = true)
  /\ (fst (insert_alias d a id) = Err Duplicate <-> taken = true)
  /\ (fst (insert_alias d a id) = Err (QueryError (sqlx_error_to_string ForeignKeyViolation))
      <-> taken = false /\ target = false)
  /\ (forall e d', insert_alias d a id = (Err e, d') -> d' = d).
Proof.
  intros taken target. unfold insert_alias, insert_aliases_stmt. fold taken target.
  destruct taken, target; cbn [negb fst];
    rewrite ?insert_alias_err_unique, ?insert_alias_err_fk;
    repeat split; try discriminate; try reflexivity;
    try (intros [H1 H2]; discriminate);
    intros e d' H; inversion H; reflexivity.
Qed.

Lemma insert_alias_outcomes_witness :
  fst (insert_alias example_db "ccc333" 1)%string = Err Duplicate.
Proof.
  apply (proj2 (proj1 (proj2 (insert_alias_outcomes example_db "ccc333"%string 1)))).
  vm_compute. reflexivity.
Defined.

(** Of the failures the alias insert can report, exactly the UNIQUE
    violation on [aliases.alias] becomes [Duplicate]; every other one
    becomes [QueryError] with the error's text. *)
Theorem insert_alias_err_translation (e : sqlx_error) (He : schema_error e) :
  (insert_alias_err e = Duplicate <-> e = UniqueViolation "aliases" "alias")
  /\ (e <> UniqueViolation "aliases" "alias" ->
      insert_alias_err e = QueryError (sqlx_error_to_string e)).
Proof.
  assert (Hiff : insert_alias_err e = Duplicate <-> e = UniqueViolation "aliases" "alias").
  { destruct e; simpl in He;
      try (split; [vm_compute; discriminate | discriminate]).
    - repeat (destruct He as [He|He]; [inversion He; subst; vm_compute;
                first [split; reflexivity | split; discriminate] |]).
      contradiction.
    - repeat (destruct He as [He|He]; [inversion He; subst; vm_compute;
                split; discriminate |]).
      contradiction. }
  split; [exact Hiff|].
  intros Hne. unfold insert_alias_err in *.
  destruct contains; [|reflexivity]. exfalso. apply Hne, Hiff. reflexivity.
Qed.

Lemma insert_alias_err_translation_witness :
  insert_alias_err (NotNullViolation "aliases" "target_id")
  = QueryError (sqlx_error_to_string (NotNullViolation "aliases" "target_id")).
Proof.
  apply (proj2 (insert_alias_err_translation (NotNullViolation "aliases" "target_id")
                  ltac:(simpl; tauto))).
  discriminate.
Defined.

Lemma find_alias_join (a : string) (g : url_row -> string) (q : url_row -> bool) (l : list url_row) :
  find (fun p => String.eqb (fst p) a) (map (fun r => (a, g r)) (filter q l))
  = option_map (fun r => (a, g r)) (find q l).
Proof.
  induction l as [|r l IH]; simpl; [reflexivity|].
  destruct (q r); simpl; [now rewrite String.eqb_refl|exact IH].
Qed.

(** After a successful [insert_alias a id] for an [a] that is neither a
    canonical code nor an alias, [get_url a] resolves to the url of the
    canonical row with id [id] (the first one, in row order). *)
Theorem insert_alias_resolves (d : db) (a : string) (id : Z)
  (Hcode : code_in a d = false)
  (Ha : existsb (fun al => String.eqb (alias al) a) (aliases d) = false)
  (Ht : existsb (fun r => Z.eqb (row_id r) id) (urls d) = true) :
  exists r, find (fun r => Z.eqb (row_id r) id) (urls d) = Some r
            /\ get_url (snd (insert_alias d a id)) a = Ok (row_url r).
Proof.
  destruct (find (fun r => Z.eqb (row_id r) id) (urls d)) as [r|] eqn:F.
  2:{ apply existsb_exists in Ht as [r [Hr Hq]]. rewrite (find_none _ _ F r Hr) in Hq. discriminate. }
  exists r. split; [reflexivity|].
  rewrite insert_alias_ok by assumption. cbn [snd].
  unfold get_url, all_short_codes, set_aliases. cbn [urls aliases].
  rewrite flat_map_app, find_app, find_all_false.
  2:{ intros p Hp. apply in_map_iff in Hp as [r' [<- Hr']]. simpl.
      exact (existsb_false_forall _ _ Hcode r' Hr'). }
  rewrite find_app, find_all_false.
  2:{ intros p Hp. apply in_flat_map in Hp as [al [Hal Hp]].
      apply in_map_iff in Hp as [r' [<- _]]. simpl.
      exact (existsb_false_forall _ _ Ha al Hal). }
  simpl. rewrite app_nil_r, find_alias_join, F. reflexivity.
Qed.

Lemma insert_alias_resolves_witness :
  get_url (snd (insert_alias (run [OpInsertUrl "aaa111" "https://example.com"] empty_db) "ccc333" 1)) "ccc333"
  = Ok "https://example.com"%string.
Proof.
  destruct (insert_alias_resolves (run [OpInsertUrl "aaa111" "https://example.com"] empty_db)
              "ccc333" 1 ltac:(vm_compute; reflexivity) ltac:(vm_compute; reflexivity)
              ltac:(vm_compute; reflexivity))%string as [r [F G]].
  rewrite G. vm_compute in F. inversion F. reflexivity.
Defined.

(* ------------------------------------------------------------------ *)
(** ** Bloom snapshots *)

(** [save_bloom_snapshot n data] then [load_bloom_snapshot n] returns
    exactly [data]; the snapshots of other names are untouched. *)
Theorem save_then_load (d : db) (n m : string) (data : list byte) :
  load_bloom_snapshot (snd (save_bloom_snapshot d n data)) n = Ok (Some data)
  /\ (m <> n -> load_bloom_snapshot (snd (save_bloom_snapshot d n data)) m
                = load_bloom_snapshot d m).
Proof.
  split.
  - change (@Ok _ DatabaseError (bloom_lookup (snd (save_bloom_snapshot d n data)) n)
            = Ok (Some data)).
    rewrite save_bloom_lookup, String.eqb_refl. reflexivity.
  - intros Hne.
    change (@Ok _ DatabaseError (bloom_lookup (snd (save_bloom_snapshot d n data)) m)
            = Ok (bloom_lookup d m)).
    rewrite save_bloom_lookup.
    destruct (String.eqb_spec n m); [congruence|reflexivity].
Qed.

Lemma save_then_load_witness :
  load_bloom_snapshot (snd (save_bloom_snapshot example_db "filterA" [x01])) "filterB"
  = load_bloom_snapshot example_db "filterB"%string.
Proof.
  apply (proj2 (save_then_load example_db "filterA" "filterB" [x01]))%string.
  discriminate.
Defined.

(* ------------------------------------------------------------------ *)
(** ** [list_short_codes] *)

Lemma offset_rows_nonpos {A} (o : Z) (rows : list A) : o <= 0 -> offset_rows o rows = rows.
Proof.
  intros Ho. destruct rows as [|x rows]; simpl; [reflexivity|].
  destruct (Z.leb_spec o 0); [reflexivity|lia].
Qed.

(** For offset and limit below 2^63, [list_short_codes] returns the
    [limit] codes that follow the first [offset] codes of the view: at most
    [limit] codes, and none once [offset] reaches the number of codes. *)
Theorem list_short_codes_window (d : db) (offset limit : Z)
  (Ho : 0 <= offset < 2 ^ 63) (Hl : 0 <= limit < 2 ^ 63) :
  let codes := map fst (all_short_codes d) in
  list_short_codes d offset limit
    = Ok (firstn (Z.to_nat limit) (skipn (Z.to_nat offset) codes))
  /\ (List.length (firstn (Z.to_nat limit) (skipn (Z.to_nat offset) codes)) <= Z.to_nat limit)%nat
  /\ ((List.length codes <= Z.to_nat offset)%nat ->
      list_short_codes d offset limit = Ok []).
Proof.
  intros codes.
  assert (E : list_short_codes d offset limit
              = Ok (firstn (Z.to_nat limit) (skipn (Z.to_nat offset) codes))).
  { unfold list_short_codes, u64_as_i64, limit_offset.
    destruct (Z.ltb_spec offset (2 ^ 63)); [|lia].
    destruct (Z.ltb_spec limit (2 ^ 63)); [|lia].
    destruct (Z.ltb_spec limit 0); [lia|].
    rewrite limit_rows_firstn, offset_rows_skipn by lia. reflexivity. }
  split; [exact E|]. split.
  - rewrite length_firstn. lia.
  - intros Hlen. rewrite E, skipn_all2 by exact Hlen. now destruct (Z.to_nat limit).
Qed.

Lemma list_short_codes_window_witness :
  list_short_codes example_db 1 5 = Ok (firstn 5 (skipn 1 (map fst (all_short_codes example_db)))).
Proof.
  apply (list_short_codes_window example_db 1 5); lia.
Defined.

(** The [as i64] casts: a limit in [2^63, 2^64) turns negative and the
    window has no limit; an offset in [2^63, 2^64) turns negative and the
    window starts at the first code. *)
Theorem list_short_codes_large_arguments (d : db) (offset limit : Z) :
  let codes := map fst (all_short_codes d) in
  (2 ^ 63 <= limit < 2 ^ 64 -> 0 <= offset < 2 ^ 63 ->
   list_short_codes d offset limit = Ok (skipn (Z.to_nat offset) codes))
  /\ (2 ^ 63 <= offset < 2 ^ 64 ->
      list_short_codes d offset limit = list_short_codes d 0 limit).
Proof.
  intros codes. split.
  - intros Hl Ho. unfold list_short_codes, u64_as_i64, limit_offset.
    destruct (Z.ltb_spec offset (2 ^ 63)); [|lia].
    destruct (Z.ltb_spec limit (2 ^ 63)); [lia|].
    destruct (Z.ltb_spec (limit - 2 ^ 64) 0); [|lia].
    rewrite offset_rows_skipn by lia. reflexivity.
  - intros Ho. unfold list_short_codes, u64_as_i64.
    destruct (Z.ltb_spec offset (2 ^ 63)); [lia|].
    assert (Z0 : (0 <? 2 ^ 63) = true) by reflexivity. rewrite Z0.
    unfold limit_offset. rewrite !offset_rows_nonpos by lia. reflexivity.
Qed.

Lemma list_short_codes_large_arguments_witness :
  list_short_codes example_db 0 (2 ^ 64 - 1) = Ok (skipn 0 (map fst (all_short_codes example_db))).
Proof.
  apply (proj1 (list_short_codes_large_arguments example_db 0 (2 ^ 64 - 1))); lia.
Defined.

Lemma windows_tile_witness :
  List.concat (map (window example_db 2) (seq 0 2))
  = firstn (2 * Z.to_nat 2) (map fst (all_short_codes example_db)).
Proof. apply windows_tile; [lia|]. intros k Hk. lia. Defined.

(* ------------------------------------------------------------------ *)
(** ** Pool size *)

(** Whatever [num_cpus] and [max_connections] are, the pool gets between
    [MIN_CAP] = 1 and [MAX_CAP] = 64 connections; a configured value in
    that range is used as is, a larger one is cut to 64 and 0 is raised
    to 1. *)
Theorem pool_max_conn_bounds (num_cpus : Z) (mc : option Z) :
  1 <= pool_max_conn num_cpus mc <= 64
  /\ (forall m, 1 <= m <= 64 -> pool_max_conn num_cpus (Some m) = m)
  /\ (forall m, 64 < m -> pool_max_conn num_cpus (Some m) = 64)
  /\ pool_max_conn num_cpus (Some 0) = 1.
Proof.
  unfold pool_max_conn, clamp, MIN_CAP, MAX_CAP.
  split; [|split; [|split]].
  - destruct (Z.ltb_spec (match mc with Some m => m
                          | None => usize_as_u32 (Z.max (usize_saturating_mul (Z.max num_cpus 1) 2) 4) end) 1);
      [lia|].
    destruct (Z.ltb_spec 64 (match mc with Some m => m
                          | None => usize_as_u32 (Z.max (usize_saturating_mul (Z.max num_cpus 1) 2) 4) end));
      lia.
  - intros m Hm. destruct (Z.ltb_spec m 1); [lia|]. destruct (Z.ltb_spec 64 m); lia.
  - intros m Hm. destruct (Z.ltb_spec m 1); [lia|]. destruct (Z.ltb_spec 64 m); lia.
  - reflexivity.
Qed.

Lemma pool_max_conn_bounds_witness :
  pool_max_conn 8 (Some 16) = 16.
Proof. apply (proj1 (proj2 (pool_max_conn_bounds 8 (Some 16)))). lia. Defined.

(** Without a configured [max_connections] and with fewer than 2^31 CPUs,
    the pool gets twice the CPU count (at least one CPU counted), at least
    4 and at most 64. *)
Theorem pool_max_conn_default (num_cpus : Z) (H : 0 <= num_cpus < 2 ^ 31) :
  pool_max_conn num_cpus None = Z.min (Z.max (2 * Z.max num_cpus 1) 4) 64.
Proof.
  unfold pool_max_conn, clamp, MIN_CAP, MAX_CAP, usize_as_u32, usize_saturating_mul.
  rewrite Z.min_l by lia.
  rewrite Z.mod_small by lia.
  destruct (Z.ltb_spec (Z.max (Z.max num_cpus 1 * 2) 4) 1); [lia|].
  destruct (Z.ltb_spec 64 (Z.max (Z.max num_cpus 1 * 2) 4)); lia.
Qed.

Lemma pool_max_conn_default_witness : pool_max_conn 2 None = 4 /\ pool_max_conn 40 None = 64.
Proof.
  split.
  - rewrite (pool_max_conn_default 2) by lia. reflexivity.
  - rewrite (pool_max_conn_default 40) by lia. reflexivity.
Defined.
